(** * EnumFlags: a bit-mask container over a scoped enumeration

    A shallow embedding of [eflags.h]: the two enumeration operators
    [operator|] and [operator&], and the class template [EnumFlags<Enum>]
    with its constructors, [set], [reset], [hasFlag] and [operator bool].

    The template parameter [Enum] only matters through its underlying
    integer type, so the development is parameterised by that type (its
    width and signedness).  Integers are mathematical [Z] values kept in
    the range of the underlying type; every conversion to the underlying
    type is written out as [wrap]. *)

From Stdlib Require Import ZArith Lia List Bool Permutation.
Import ListNotations.
Local Open Scope Z_scope.

(** ** Underlying integer types *)

(** [std::underlying_type_t<Enum>]: a two's complement integer type of
    [bits] bits, signed or not. *)
Record IntType : Type := mkIntType {
  bits : positive;
  is_signed : bool
}.

Definition width (U : IntType) : Z := Z.pos (bits U).

(** [std::numeric_limits<U>::min()] and [max()]. *)
Definition min_value (U : IntType) : Z :=
  if is_signed U then - 2 ^ (width U - 1) else 0.

Definition max_value (U : IntType) : Z :=
  if is_signed U then 2 ^ (width U - 1) - 1 else 2 ^ width U - 1.

(** The values an object of type [U] can hold. *)
Definition representable (U : IntType) (z : Z) : Prop :=
  min_value U <= z <= max_value U.

Definition representableb (U : IntType) (z : Z) : bool :=
  (min_value U <=? z) && (z <=? max_value U).

(** Conversion of an integer to [U]: the value modulo [2 ^ width],
    taken in the range of [U]. *)
Definition wrap (U : IntType) (z : Z) : Z :=
  if is_signed U
  then (z + 2 ^ (width U - 1)) mod 2 ^ width U - 2 ^ (width U - 1)
  else z mod 2 ^ width U.

(** The bits of [z] above the value bits of [U]: everything from bit
    [width] on, and for a signed type the sign bit too. *)
Definition high_part (U : IntType) (z : Z) : Z :=
  Z.shiftr z (if is_signed U then width U - 1 else width U).

(** The underlying types of the two enumerations of the self test:
    [TEST_V1 : char] and [TEST_V2 : int]; whether [char] is signed is
    left to the implementation, so both 8-bit types are given. *)
Definition char_t : IntType := mkIntType 8 true.
Definition uchar_t : IntType := mkIntType 8 false.
Definition int_t : IntType := mkIntType 32 true.

(** ** Enumeration values *)

(** A value of the enumeration, seen through [static_cast<underlying>]. *)
Record Enum : Type := EnumVal { underlying : Z }.

(** The container: its only member is [flags], of the underlying type. *)
Record EnumFlags : Type := mkEnumFlags { flags : Z }.

Definition enum_ok (U : IntType) (e : Enum) : Prop :=
  representable U (underlying e).

Definition state_ok (U : IntType) (st : EnumFlags) : Prop :=
  representable U (flags st).

(** ** Member functions as state transformers *)

(** A [void] or value-returning member function that may write [*this]. *)
Definition M (A : Type) : Type := EnumFlags -> A * EnumFlags.

Definition ret {A : Type} (a : A) : M A := fun st => (a, st).

Definition bind {A B : Type} (m : M A) (k : A -> M B) : M B :=
  fun st => let (a, st') := m st in k a st'.

(** The built-in comma operator: left operand first, its value dropped. *)
Definition comma {A B : Type} (m : M A) (k : M B) : M B :=
  bind m (fun _ => k).

Definition get_flags : M Z := fun st => (flags st, st).

Definition put_flags (z : Z) : M unit := fun _ => (tt, mkEnumFlags z).

(** The state a member function leaves behind. *)
Definition exec {A : Type} (m : M A) (st : EnumFlags) : EnumFlags :=
  snd (m st).

Section WithUnderlying.

Variable U : IntType.

(** [static_cast<Enum>(z)] for an integer expression [z]. *)
Definition to_enum (z : Z) : Enum := EnumVal (wrap U z).

(** [operator|(Enum lhs, Enum rhs)]. *)
Definition enum_or (lhs rhs : Enum) : Enum :=
  to_enum (Z.lor (underlying lhs) (underlying rhs)).

(** [operator&(Enum lhs, Enum rhs)]. *)
Definition enum_and (lhs rhs : Enum) : Enum :=
  to_enum (Z.land (underlying lhs) (underlying rhs)).

(** [EnumFlags() : flags(0)]. *)
Definition EnumFlags_default : EnumFlags := mkEnumFlags (wrap U 0).

(** [EnumFlags(Enum flag) : flags(static_cast<underlying>(flag))]. *)
Definition EnumFlags_single (flag : Enum) : EnumFlags :=
  mkEnumFlags (underlying flag).

(** The unary right fold [(e1 | ...)] over a non-empty pack:
    [e1 | (e2 | (... | eN))]. *)
Fixpoint or_fold (e : Z) (es : list Z) : Z :=
  match es with
  | [] => e
  | e' :: es' => Z.lor e (or_fold e' es')
  end.

(** [EnumFlags(Enums... flags)
      : flags((static_cast<underlying>(flags) | ...))]. *)
Definition EnumFlags_variadic (flag : Enum) (rest : list Enum) : EnumFlags :=
  mkEnumFlags (wrap U (or_fold (underlying flag) (map underlying rest))).

(** Overload resolution among the three constructors: no argument picks
    the default constructor, one argument the non-template one, more
    arguments the variadic template. *)
Definition construct (args : list Enum) : EnumFlags :=
  match args with
  | [] => EnumFlags_default
  | [flag] => EnumFlags_single flag
  | flag :: rest => EnumFlags_variadic flag rest
  end.

(** [set(Enum flag)]: [flags |= static_cast<underlying>(flag)]. *)
Definition set (flag : Enum) : M unit :=
  bind get_flags (fun m => put_flags (wrap U (Z.lor m (underlying flag)))).

(** The unary right fold [(e1 , ...)]: [e1 , (e2 , (... , eN))], and
    [void()] over an empty pack. *)
Fixpoint comma_fold (es : list (M unit)) : M unit :=
  match es with
  | [] => ret tt
  | [e] => e
  | e :: es' => comma e (comma_fold es')
  end.

(** [set(Enums... flags)]: [(set(flags), ...)]. *)
Definition set_variadic (args : list Enum) : M unit :=
  comma_fold (map set args).

(** [reset(Enum flag)]: [flags &= ~static_cast<underlying>(flag)]. *)
Definition reset (flag : Enum) : M unit :=
  bind get_flags
       (fun m => put_flags (wrap U (Z.land m (Z.lnot (underlying flag))))).

(** [hasFlag(Enum flag) const]:
    [(flags & static_cast<underlying>(flag)) != 0]. *)
Definition hasFlag (st : EnumFlags) (flag : Enum) : bool :=
  negb (Z.land (flags st) (underlying flag) =? 0).

(** [explicit operator bool() const]: [flags != 0]. *)
Definition to_bool (st : EnumFlags) : bool :=
  negb (flags st =? 0).

(** A flag with exactly one bit of the underlying type set. *)
Definition single_bit (flag : Enum) : Prop :=
  exists k, 0 <= k < width U /\ underlying flag = wrap U (2 ^ k).

(** The wording of the specification for the variadic [set]: the
    single-flag [set] called once per argument, one after the other. *)
Definition spec_set_each (args : list Enum) (st : EnumFlags) : EnumFlags :=
  fold_left (fun s flag => exec (set flag) s) args st.

(** The wording of the specification for [hasFlag]: every bit of the
    flag is also a bit of the mask. *)
Definition spec_all_bits (st : EnumFlags) (flag : Enum) : Prop :=
  Z.land (flags st) (underlying flag) = underlying flag.

End WithUnderlying.

(** ** Containers a program can build *)

(** The containers obtained through the public interface when every flag
    passed in satisfies [P]: built by a constructor, then changed by
    [set], the variadic [set] and [reset]. *)
Inductive built_from (U : IntType) (P : Enum -> Prop) : EnumFlags -> Prop :=
| built_construct (args : list Enum) :
    Forall P args -> built_from U P (construct U args)
| built_set (st : EnumFlags) (flag : Enum) :
    built_from U P st -> P flag -> built_from U P (exec (set U flag) st)
| built_set_variadic (st : EnumFlags) (args : list Enum) :
    built_from U P st -> Forall P args ->
    built_from U P (exec (set_variadic U args) st)
| built_reset (st : EnumFlags) (flag : Enum) :
    built_from U P st -> P flag -> built_from U P (exec (reset U flag) st).

(** [flag] has no bit outside [all]. *)
Definition within (all : Z) (flag : Enum) : Prop :=
  Z.land (underlying flag) all = underlying flag.

(** ** The self test of the header *)

(** The enumerators of [TEST_V1] and of [TEST_V2] have the same values. *)
Module TEST.
Definition one : Enum := EnumVal (Z.shiftl 1 0).
Definition two : Enum := EnumVal (Z.shiftl 1 1).
Definition three : Enum := EnumVal (Z.shiftl 1 2).
End TEST.

(** One half of [debug_test()]: the conjunction of its assertions for an
    enumeration of underlying type [U]. *)
Definition debug_test (U : IntType) : bool :=
  let flags0 := EnumFlags_default U in
  let flags1 := exec (set U TEST.one) flags0 in
  let single :=
    hasFlag flags1 TEST.one && negb (hasFlag flags1 TEST.two)
    && negb (hasFlag flags1 TEST.three) in
  let flags2 := exec (set_variadic U [TEST.two; TEST.three]) flags1 in
  let multiple :=
    hasFlag flags2 TEST.one && hasFlag flags2 TEST.two
    && hasFlag flags2 TEST.three in
  let flags3 := exec (reset U TEST.two) flags2 in
  let one_reset :=
    hasFlag flags3 TEST.one && negb (hasFlag flags3 TEST.two)
    && hasFlag flags3 TEST.three in
  let all := enum_or U (enum_or U TEST.one TEST.two) TEST.three in
  let flags4 := exec (reset U all) flags3 in
  let all_reset :=
    negb (hasFlag flags4 TEST.one) && negb (hasFlag flags4 TEST.two)
    && negb (hasFlag flags4 TEST.three) in
  single && multiple && one_reset && all_reset.

(** ** Ranges and conversions *)

Lemma width_pos (U : IntType) : 0 < width U.
Proof. unfold width; lia. Qed.

Lemma pow2_width_split (U : IntType) :
  2 ^ width U = 2 * 2 ^ (width U - 1).
Proof.
  pose proof (width_pos U).
  rewrite <- Z.pow_succ_r by lia. f_equal; lia.
Qed.

Lemma representableb_spec (U : IntType) (z : Z) :
  representableb U z = true <-> representable U z.
Proof.
  unfold representableb, representable.
  rewrite andb_true_iff, !Z.leb_le. tauto.
Qed.

Lemma wrap_representable (U : IntType) (z : Z) : representable U (wrap U z).
Proof.
  pose proof (width_pos U) as Hw.
  pose proof (pow2_width_split U) as Hs.
  assert (0 < 2 ^ (width U - 1)) by (apply Z.pow_pos_nonneg; lia).
  unfold representable, wrap, min_value, max_value.
  destruct (is_signed U).
  - pose proof (Z.mod_pos_bound (z + 2 ^ (width U - 1)) (2 ^ width U)). lia.
  - pose proof (Z.mod_pos_bound z (2 ^ width U)). lia.
Qed.

Lemma wrap_id (U : IntType) (z : Z) : representable U z -> wrap U z = z.
Proof.
  pose proof (pow2_width_split U) as Hs.
  unfold representable, wrap, min_value, max_value.
  destruct (is_signed U); intros Hz.
  - rewrite Z.mod_small; lia.
  - apply Z.mod_small; lia.
Qed.

(** A value is in range exactly when the bits above its value bits are
    all zero, or (signed types) all one. *)
Lemma representable_high_part (U : IntType) (z : Z) :
  representable U z <->
  high_part U z = 0 \/ (is_signed U = true /\ high_part U z = -1).
Proof.
  pose proof (width_pos U) as Hw.
  unfold representable, high_part, min_value, max_value.
  destruct (is_signed U).
  - rewrite Z.shiftr_div_pow2 by lia.
    assert (0 < 2 ^ (width U - 1)) by (apply Z.pow_pos_nonneg; lia).
    split.
    + intros Hz. destruct (Z_lt_le_dec z 0).
      * right. split; [reflexivity|].
        symmetry. apply (Z.div_unique _ _ _ (z + 2 ^ (width U - 1))); lia.
      * left. apply Z.div_small. lia.
    + intros [Hz | [_ Hz]];
        pose proof (Z.div_mod z (2 ^ (width U - 1)));
        pose proof (Z.mod_pos_bound z (2 ^ (width U - 1))); lia.
  - rewrite Z.shiftr_div_pow2 by lia.
    assert (0 < 2 ^ width U) by (apply Z.pow_pos_nonneg; lia).
    split.
    + intros Hz. left. apply Z.div_small. lia.
    + intros [Hz | [Hs _]]; [|discriminate].
      pose proof (Z.div_mod z (2 ^ width U));
        pose proof (Z.mod_pos_bound z (2 ^ width U)); lia.
Qed.

Lemma representable_lor (U : IntType) (a b : Z) :
  representable U a -> representable U b -> representable U (Z.lor a b).
Proof.
  rewrite !representable_high_part. unfold high_part.
  rewrite Z.shiftr_lor.
  intros [Ha | [Hs Ha]] [Hb | [Hs' Hb]]; rewrite Ha, Hb; simpl; auto.
Qed.

Lemma representable_land (U : IntType) (a b : Z) :
  representable U a -> representable U b -> representable U (Z.land a b).
Proof.
  rewrite !representable_high_part. unfold high_part.
  rewrite Z.shiftr_land.
  intros [Ha | [Hs Ha]] [Hb | [Hs' Hb]]; rewrite Ha, Hb; simpl; auto.
Qed.

Lemma representable_land_lnot (U : IntType) (a b : Z) :
  representable U a -> representable U b ->
  representable U (Z.land a (Z.lnot b)).
Proof.
  pose proof (width_pos U) as Hw.
  rewrite !representable_high_part. unfold high_part.
  rewrite Z.shiftr_land, <- Z.lnot_shiftr by (destruct (is_signed U); lia).
  intros [Ha | [Hs Ha]] [Hb | [Hs' Hb]]; rewrite Ha, Hb; simpl; auto.
Qed.

Lemma wrap_0 (U : IntType) : wrap U 0 = 0.
Proof.
  apply wrap_id. apply representable_high_part. left.
  unfold high_part. apply Z.shiftr_0_l.
Qed.

(** ** The state transformers, step by step *)

Lemma exec_comma {A B : Type} (m : M A) (k : M B) (st : EnumFlags) :
  exec (comma m k) st = exec k (exec m st).
Proof. unfold exec, comma, bind. destruct (m st); reflexivity. Qed.

Lemma exec_comma_fold_cons (e : M unit) (es : list (M unit)) (st : EnumFlags) :
  exec (comma_fold (e :: es)) st = exec (comma_fold es) (exec e st).
Proof.
  destruct es as [|e' es'].
  - reflexivity.
  - change (comma_fold (e :: e' :: es')) with (comma e (comma_fold (e' :: es'))).
    apply exec_comma.
Qed.

Lemma exec_set (U : IntType) (flag : Enum) (st : EnumFlags) :
  exec (set U flag) st =
  mkEnumFlags (wrap U (Z.lor (flags st) (underlying flag))).
Proof. reflexivity. Qed.

Lemma exec_reset (U : IntType) (flag : Enum) (st : EnumFlags) :
  exec (reset U flag) st =
  mkEnumFlags (wrap U (Z.land (flags st) (Z.lnot (underlying flag)))).
Proof. reflexivity. Qed.

Lemma set_state_ok (U : IntType) (flag : Enum) (st : EnumFlags) :
  state_ok U (exec (set U flag) st).
Proof. rewrite exec_set. apply wrap_representable. Qed.

Lemma reset_state_ok (U : IntType) (flag : Enum) (st : EnumFlags) :
  state_ok U (exec (reset U flag) st).
Proof. rewrite exec_reset. apply wrap_representable. Qed.

Lemma flags_set (U : IntType) (flag : Enum) (st : EnumFlags) :
  state_ok U st -> enum_ok U flag ->
  flags (exec (set U flag) st) = Z.lor (flags st) (underlying flag).
Proof.
  intros Hst Hf. rewrite exec_set. simpl.
  apply wrap_id, representable_lor; assumption.
Qed.

Lemma flags_reset (U : IntType) (flag : Enum) (st : EnumFlags) :
  state_ok U st -> enum_ok U flag ->
  flags (exec (reset U flag) st) = Z.land (flags st) (Z.lnot (underlying flag)).
Proof.
  intros Hst Hf. rewrite exec_reset. simpl.
  apply wrap_id, representable_land_lnot; assumption.
Qed.

Lemma hasFlag_false_iff (st : EnumFlags) (flag : Enum) :
  hasFlag st flag = false <-> Z.land (flags st) (underlying flag) = 0.
Proof. unfold hasFlag. rewrite negb_false_iff. apply Z.eqb_eq. Qed.

Lemma hasFlag_true_iff (st : EnumFlags) (flag : Enum) :
  hasFlag st flag = true <-> Z.land (flags st) (underlying flag) <> 0.
Proof. unfold hasFlag. rewrite negb_true_iff. apply Z.eqb_neq. Qed.

Lemma enum_or_underlying (U : IntType) (lhs rhs : Enum) :
  enum_ok U lhs -> enum_ok U rhs ->
  underlying (enum_or U lhs rhs) = Z.lor (underlying lhs) (underlying rhs).
Proof. intros Hl Hr. simpl. apply wrap_id, representable_lor; assumption. Qed.

Lemma enum_and_underlying (U : IntType) (lhs rhs : Enum) :
  enum_ok U lhs -> enum_ok U rhs ->
  underlying (enum_and U lhs rhs) = Z.land (underlying lhs) (underlying rhs).
Proof. intros Hl Hr. simpl. apply wrap_id, representable_land; assumption. Qed.

Lemma enum_or_ok (U : IntType) (lhs rhs : Enum) : enum_ok U (enum_or U lhs rhs).
Proof. apply wrap_representable. Qed.

Lemma enum_and_ok (U : IntType) (lhs rhs : Enum) : enum_ok U (enum_and U lhs rhs).
Proof. apply wrap_representable. Qed.

(** The self test passes for both enumerations. *)
Example debug_test_V1 : debug_test char_t = true.
Proof. vm_compute. reflexivity. Qed.

Example debug_test_V2 : debug_test int_t = true.
Proof. vm_compute. reflexivity. Qed.

(** It passes as well where [char] is unsigned. *)
Example debug_test_unsigned_char : debug_test uchar_t = true.
Proof. vm_compute. reflexivity. Qed.

(** ** Construction and conversion to [bool] *)

(** C4: a default-constructed [EnumFlags] has mask [0], and [hasFlag]
    answers [false] on it for every flag. *)
Theorem default_is_empty (U : IntType) :
  flags (EnumFlags_default U) = 0 /\
  forall flag : Enum, hasFlag (EnumFlags_default U) flag = false.
Proof.
  assert (H0 : flags (EnumFlags_default U) = 0) by apply wrap_0.
  split; [exact H0|].
  intros flag. apply hasFlag_false_iff. rewrite H0. apply Z.land_0_l.
Qed.

(** C8: the conversion to [bool] answers [true] exactly when the mask is
    not [0]; in particular an empty container converts to [false]. *)
Theorem to_bool_iff_nonzero (U : IntType) :
  (forall st : EnumFlags, to_bool st = true <-> flags st <> 0) /\
  to_bool (EnumFlags_default U) = false.
Proof.
  split.
  - intros st. unfold to_bool. rewrite negb_true_iff. apply Z.eqb_neq.
  - unfold to_bool, EnumFlags_default. simpl. rewrite wrap_0. reflexivity.
Qed.

(** ** The enumeration operators *)

(** C5: [operator|] yields the enumeration value whose underlying integer
    is the bitwise OR of the operands' underlying integers, [operator&]
    the one whose underlying integer is their bitwise AND.  Both are
    functions of their two arguments alone, defined on every pair of
    values, and their results are values of the enumeration again. *)
Theorem enum_or_and_underlying (U : IntType) (lhs rhs : Enum) :
  enum_ok U lhs -> enum_ok U rhs ->
  (underlying (enum_or U lhs rhs) = Z.lor (underlying lhs) (underlying rhs)
   /\ enum_ok U (enum_or U lhs rhs)) /\
  (underlying (enum_and U lhs rhs) = Z.land (underlying lhs) (underlying rhs)
   /\ enum_ok U (enum_and U lhs rhs)).
Proof.
  intros Hl Hr. split; split.
  - apply enum_or_underlying; assumption.
  - apply enum_or_ok.
  - apply enum_and_underlying; assumption.
  - apply enum_and_ok.
Qed.

Lemma enum_or_and_underlying_witness :
  enum_ok char_t TEST.one /\ enum_ok char_t TEST.two /\
  underlying (enum_or char_t TEST.one TEST.two) = 3 /\
  underlying (enum_and char_t TEST.one TEST.two) = 0.
Proof.
  assert (H1 : enum_ok char_t TEST.one) by (split; discriminate).
  assert (H2 : enum_ok char_t TEST.two) by (split; discriminate).
  pose proof (enum_or_and_underlying char_t TEST.one TEST.two H1 H2)
    as [[Hor _] [Hand _]].
  split; [exact H1|]. split; [exact H2|].
  split; [exact Hor | exact Hand].
Defined.

(** ** [set] *)

(** C6: [set] is idempotent: setting a flag twice leaves the same mask as
    setting it once. *)
Theorem set_idempotent (U : IntType) (st : EnumFlags) (flag : Enum) :
  state_ok U st -> enum_ok U flag ->
  exec (set U flag) (exec (set U flag) st) = exec (set U flag) st.
Proof.
  intros Hst Hf.
  rewrite (exec_set U flag (exec (set U flag) st)).
  rewrite flags_set by assumption.
  rewrite exec_set. f_equal. f_equal.
  rewrite <- Z.lor_assoc, Z.lor_diag. reflexivity.
Qed.

Lemma set_idempotent_witness :
  state_ok char_t (mkEnumFlags 4) /\ enum_ok char_t TEST.one /\
  exec (set char_t TEST.one) (exec (set char_t TEST.one) (mkEnumFlags 4))
  = exec (set char_t TEST.one) (mkEnumFlags 4).
Proof.
  assert (Hst : state_ok char_t (mkEnumFlags 4)) by (split; discriminate).
  assert (Hf : enum_ok char_t TEST.one) by (split; discriminate).
  split; [exact Hst|]. split; [exact Hf|].
  exact (set_idempotent char_t (mkEnumFlags 4) TEST.one Hst Hf).
Defined.

Lemma set_set_swap (U : IntType) (st : EnumFlags) (f g : Enum) :
  state_ok U st -> enum_ok U f -> enum_ok U g ->
  exec (set U g) (exec (set U f) st) = exec (set U f) (exec (set U g) st).
Proof.
  intros Hst Hf Hg.
  rewrite (exec_set U g (exec (set U f) st)).
  rewrite (exec_set U f (exec (set U g) st)).
  rewrite !flags_set by assumption.
  f_equal. f_equal.
  rewrite <- !Z.lor_assoc. f_equal. apply Z.lor_comm.
Qed.

(** C7: [set] is commutative: setting [f] then [g] leaves the same mask
    as setting [g] then [f]. *)
Theorem set_commutative (U : IntType) (st : EnumFlags) (f g : Enum) :
  state_ok U st -> enum_ok U f -> enum_ok U g ->
  exec (set U g) (exec (set U f) st) = exec (set U f) (exec (set U g) st).
Proof.
  intros Hst Hf Hg. apply set_set_swap; assumption.
Qed.

Lemma set_commutative_witness :
  state_ok int_t (mkEnumFlags 0) /\
  enum_ok int_t TEST.one /\ enum_ok int_t TEST.three /\
  exec (set int_t TEST.three) (exec (set int_t TEST.one) (mkEnumFlags 0))
  = exec (set int_t TEST.one) (exec (set int_t TEST.three) (mkEnumFlags 0)).
Proof.
  assert (Hst : state_ok int_t (mkEnumFlags 0)) by (split; discriminate).
  assert (Hf : enum_ok int_t TEST.one) by (split; discriminate).
  assert (Hg : enum_ok int_t TEST.three) by (split; discriminate).
  split; [exact Hst|]. split; [exact Hf|]. split; [exact Hg|].
  exact (set_commutative int_t (mkEnumFlags 0) TEST.one TEST.three Hst Hf Hg).
Defined.

(** ** [reset] *)

Lemma land_lnot_covered (m x a : Z) :
  Z.land a x = a -> Z.land (Z.land m (Z.lnot x)) a = 0.
Proof.
  intros Ha. rewrite <- Ha.
  rewrite (Z.land_comm a x), Z.land_assoc, <- (Z.land_assoc m).
  rewrite (Z.land_comm (Z.lnot x) x), Z.land_lnot_diag, Z.land_0_r.
  apply Z.land_0_l.
Qed.

Lemma land_lor_l (a b : Z) : Z.land a (Z.lor a b) = a.
Proof.
  apply Z.bits_inj'. intros i _.
  rewrite Z.land_spec, Z.lor_spec. destruct (Z.testbit a i); reflexivity.
Qed.

Lemma land_lor_r (a b : Z) : Z.land b (Z.lor a b) = b.
Proof. rewrite Z.lor_comm. apply land_lor_l. Qed.

(** After [reset(x)], [hasFlag] answers [false] for every flag whose bits
    all lie in [x]. *)
Lemma hasFlag_reset_covered (U : IntType) (st : EnumFlags) (x flag : Enum) :
  state_ok U st -> enum_ok U x ->
  Z.land (underlying flag) (underlying x) = underlying flag ->
  hasFlag (exec (reset U x) st) flag = false.
Proof.
  intros Hst Hx Hcov. apply hasFlag_false_iff.
  rewrite flags_reset by assumption.
  apply land_lnot_covered, Hcov.
Qed.

(** C9: immediately after [reset(f)], [hasFlag(f)] answers [false],
    whatever the flag value [f] is: one bit, several bits, or zero. *)
Theorem hasFlag_after_reset (U : IntType) (st : EnumFlags) (flag : Enum) :
  state_ok U st -> enum_ok U flag ->
  hasFlag (exec (reset U flag) st) flag = false.
Proof.
  intros Hst Hf. apply hasFlag_reset_covered; try assumption.
  apply Z.land_diag.
Qed.

Lemma hasFlag_after_reset_witness :
  state_ok char_t (mkEnumFlags 7) /\
  enum_ok char_t (enum_or char_t TEST.one TEST.three) /\
  hasFlag (exec (reset char_t (enum_or char_t TEST.one TEST.three))
                (mkEnumFlags 7))
          (enum_or char_t TEST.one TEST.three) = false.
Proof.
  assert (Hst : state_ok char_t (mkEnumFlags 7)) by (split; discriminate).
  assert (Hf : enum_ok char_t (enum_or char_t TEST.one TEST.three))
    by (split; discriminate).
  split; [exact Hst|]. split; [exact Hf|].
  exact (hasFlag_after_reset char_t (mkEnumFlags 7) _ Hst Hf).
Defined.

(** C2: [reset] takes one combined value and clears all of its bits at
    once: after [set(a); set(b); set(c); reset(a | b | c)], [hasFlag]
    answers [false] for [a], for [b] and for [c].  This holds for all
    flags [a], [b], [c], so in particular for distinct single-bit ones. *)
Theorem reset_combined_clears_all (U : IntType) (st : EnumFlags) (a b c : Enum) :
  state_ok U st -> enum_ok U a -> enum_ok U b -> enum_ok U c ->
  let st3 := exec (set U c) (exec (set U b) (exec (set U a) st)) in
  let st4 := exec (reset U (enum_or U (enum_or U a b) c)) st3 in
  hasFlag st4 a = false /\ hasFlag st4 b = false /\ hasFlag st4 c = false.
Proof.
  intros Hst Ha Hb Hc st3 st4.
  assert (Hab : underlying (enum_or U a b) = Z.lor (underlying a) (underlying b))
    by (apply enum_or_underlying; assumption).
  assert (Habc : underlying (enum_or U (enum_or U a b) c)
                 = Z.lor (Z.lor (underlying a) (underlying b)) (underlying c)).
  { rewrite enum_or_underlying, Hab; auto using enum_or_ok. }
  assert (H3 : state_ok U st3) by apply set_state_ok.
  unfold st4.
  repeat split; apply hasFlag_reset_covered;
    auto using enum_or_ok; rewrite Habc.
  - rewrite <- Z.lor_assoc. apply land_lor_l.
  - rewrite (Z.lor_comm (underlying a)), <- Z.lor_assoc. apply land_lor_l.
  - apply land_lor_r.
Qed.

Lemma reset_combined_clears_all_witness :
  state_ok char_t (mkEnumFlags 0) /\
  enum_ok char_t TEST.one /\ enum_ok char_t TEST.two /\
  enum_ok char_t TEST.three /\
  let st3 := exec (set char_t TEST.three)
               (exec (set char_t TEST.two)
                  (exec (set char_t TEST.one) (mkEnumFlags 0))) in
  let st4 := exec (reset char_t
                     (enum_or char_t (enum_or char_t TEST.one TEST.two)
                        TEST.three)) st3 in
  hasFlag st4 TEST.one = false /\ hasFlag st4 TEST.two = false /\
  hasFlag st4 TEST.three = false.
Proof.
  assert (Hst : state_ok char_t (mkEnumFlags 0)) by (split; discriminate).
  assert (Ha : enum_ok char_t TEST.one) by (split; discriminate).
  assert (Hb : enum_ok char_t TEST.two) by (split; discriminate).
  assert (Hc : enum_ok char_t TEST.three) by (split; discriminate).
  split; [exact Hst|]. split; [exact Ha|]. split; [exact Hb|].
  split; [exact Hc|].
  exact (reset_combined_clears_all char_t (mkEnumFlags 0)
           TEST.one TEST.two TEST.three Hst Ha Hb Hc).
Defined.

(** ** The variadic [set] and the constructors *)

(** The fold over the comma operator runs the single-flag [set] on each
    argument, first to last. *)
Lemma set_variadic_each (U : IntType) (args : list Enum) (st : EnumFlags) :
  exec (set_variadic U args) st = spec_set_each U args st.
Proof.
  revert st. induction args as [|flag args IH]; intros st.
  - reflexivity.
  - unfold set_variadic. rewrite map_cons, exec_comma_fold_cons.
    apply IH.
Qed.

Lemma spec_set_each_perm (U : IntType) (args args' : list Enum) :
  Permutation args args' ->
  forall st : EnumFlags,
    state_ok U st -> Forall (enum_ok U) args ->
    spec_set_each U args' st = spec_set_each U args st.
Proof.
  induction 1 as [|x l l' Hp IH|x y l|l l' l'' Hp1 IH1 Hp2 IH2];
    intros st Hst Hall.
  - reflexivity.
  - inversion Hall; subst. simpl. apply IH; [apply set_state_ok | assumption].
  - inversion Hall as [|? ? Hy Hall']; subst.
    inversion Hall' as [|? ? Hx Hl]; subst.
    simpl. rewrite (set_set_swap U st x y) by assumption. reflexivity.
  - rewrite IH2; [apply IH1; assumption | assumption |].
    apply (Permutation_Forall Hp1). assumption.
Qed.

(** C3: the variadic [set(f1, ..., fN)] leaves the same mask as the
    single-flag [set] called once per argument, and the same mask for
    every ordering of its arguments. *)
Theorem set_variadic_each_any_order
  (U : IntType) (st : EnumFlags) (args args' : list Enum) :
  state_ok U st -> Forall (enum_ok U) args -> Permutation args args' ->
  exec (set_variadic U args) st = spec_set_each U args st /\
  exec (set_variadic U args') st = exec (set_variadic U args) st.
Proof.
  intros Hst Hall Hp. split.
  - apply set_variadic_each.
  - rewrite !set_variadic_each. apply spec_set_each_perm; assumption.
Qed.

Lemma set_variadic_each_any_order_witness :
  state_ok char_t (mkEnumFlags 1) /\
  Forall (enum_ok char_t) [TEST.two; TEST.three] /\
  Permutation [TEST.two; TEST.three] [TEST.three; TEST.two] /\
  exec (set_variadic char_t [TEST.two; TEST.three]) (mkEnumFlags 1)
  = spec_set_each char_t [TEST.two; TEST.three] (mkEnumFlags 1) /\
  exec (set_variadic char_t [TEST.three; TEST.two]) (mkEnumFlags 1)
  = exec (set_variadic char_t [TEST.two; TEST.three]) (mkEnumFlags 1).
Proof.
  assert (Hst : state_ok char_t (mkEnumFlags 1)) by (split; discriminate).
  assert (Hall : Forall (enum_ok char_t) [TEST.two; TEST.three])
    by (repeat constructor; discriminate).
  assert (Hp : Permutation [TEST.two; TEST.three] [TEST.three; TEST.two])
    by apply perm_swap.
  split; [exact Hst|]. split; [exact Hall|]. split; [exact Hp|].
  exact (set_variadic_each_any_order char_t (mkEnumFlags 1) _ _ Hst Hall Hp).
Defined.

Lemma or_fold_representable (U : IntType) (rest : list Enum) :
  forall flag : Enum,
    enum_ok U flag -> Forall (enum_ok U) rest ->
    representable U (or_fold (underlying flag) (map underlying rest)).
Proof.
  induction rest as [|g rest IH]; intros flag Hf Hall; simpl.
  - exact Hf.
  - inversion Hall; subst. apply representable_lor; [exact Hf | auto].
Qed.

(** Setting a non-empty list of flags ORs the right fold of their values
    into the mask. *)
Lemma spec_set_each_or_fold (U : IntType) (rest : list Enum) :
  forall (flag : Enum) (st : EnumFlags),
    state_ok U st -> enum_ok U flag -> Forall (enum_ok U) rest ->
    spec_set_each U (flag :: rest) st =
    mkEnumFlags (Z.lor (flags st)
                   (or_fold (underlying flag) (map underlying rest))).
Proof.
  induction rest as [|g rest IH]; intros flag st Hst Hf Hall.
  - simpl. rewrite exec_set. f_equal.
    apply wrap_id, representable_lor; assumption.
  - inversion Hall; subst.
    change (spec_set_each U (flag :: g :: rest) st)
      with (spec_set_each U (g :: rest) (exec (set U flag) st)).
    rewrite IH; [| apply set_state_ok | assumption | assumption].
    rewrite flags_set by assumption.
    simpl. rewrite Z.lor_assoc. reflexivity.
Qed.

(** C10: constructing from [f1, ..., fN] (one flag or several) gives the
    same mask as default construction followed by [set(f1, ..., fN)]. *)
Theorem construct_is_default_then_set
  (U : IntType) (flag : Enum) (rest : list Enum) :
  enum_ok U flag -> Forall (enum_ok U) rest ->
  construct U (flag :: rest) =
  exec (set_variadic U (flag :: rest)) (EnumFlags_default U).
Proof.
  intros Hf Hall.
  assert (H0 : flags (EnumFlags_default U) = 0) by apply wrap_0.
  assert (Hst : state_ok U (EnumFlags_default U))
    by apply wrap_representable.
  rewrite set_variadic_each, spec_set_each_or_fold by assumption.
  rewrite H0, Z.lor_0_l.
  destruct rest as [|g rest].
  - reflexivity.
  - change (construct U (flag :: g :: rest))
      with (EnumFlags_variadic U flag (g :: rest)).
    unfold EnumFlags_variadic. f_equal.
    apply wrap_id, or_fold_representable; assumption.
Qed.

Lemma construct_is_default_then_set_witness :
  enum_ok int_t TEST.one /\ Forall (enum_ok int_t) [TEST.two; TEST.three] /\
  construct int_t [TEST.one; TEST.two; TEST.three] =
  exec (set_variadic int_t [TEST.one; TEST.two; TEST.three])
       (EnumFlags_default int_t).
Proof.
  assert (Hf : enum_ok int_t TEST.one) by (split; discriminate).
  assert (Hall : Forall (enum_ok int_t) [TEST.two; TEST.three])
    by (repeat constructor; discriminate).
  split; [exact Hf|]. split; [exact Hall|].
  exact (construct_is_default_then_set int_t TEST.one _ Hf Hall).
Defined.

(** ** [hasFlag] *)

Lemma land_pow2 (m k : Z) :
  0 <= k -> Z.land m (2 ^ k) = if Z.testbit m k then 2 ^ k else 0.
Proof.
  intros Hk. apply Z.bits_inj'. intros i Hi.
  rewrite Z.land_spec, Z.pow2_bits_eqb by assumption.
  destruct (Z.eqb_spec k i) as [->|Hne].
  - rewrite andb_true_r. destruct (Z.testbit m i).
    + rewrite Z.pow2_bits_true; [reflexivity | assumption].
    + symmetry. apply Z.bits_0.
  - rewrite andb_false_r. destruct (Z.testbit m k).
    + rewrite Z.pow2_bits_false; [reflexivity | assumption].
    + symmetry. apply Z.bits_0.
Qed.

(** The sign bit of a signed type, as a value: [wrap] of [2 ^ (width - 1)]. *)
Lemma wrap_sign_bit (U : IntType) :
  is_signed U = true -> wrap U (2 ^ (width U - 1)) = - 2 ^ (width U - 1).
Proof.
  intros Hs. unfold wrap. rewrite Hs.
  replace (2 ^ (width U - 1) + 2 ^ (width U - 1)) with (2 ^ width U)
    by (rewrite (pow2_width_split U); lia).
  rewrite Z.mod_same; [lia|].
  pose proof (width_pos U). apply Z.pow_nonzero; lia.
Qed.

Lemma land_sign_bit (U : IntType) (m : Z) :
  is_signed U = true -> representable U m ->
  Z.land m (- 2 ^ (width U - 1)) = 0 \/
  Z.land m (- 2 ^ (width U - 1)) = - 2 ^ (width U - 1).
Proof.
  intros Hs Hm. pose proof (width_pos U) as Hw.
  assert (Hn : - 2 ^ (width U - 1) = Z.lnot (Z.ones (width U - 1))).
  { rewrite Z.ones_equiv. unfold Z.lnot. lia. }
  rewrite Hn at 1 2. rewrite <- !Z.ldiff_land, Z.ldiff_ones_r by lia.
  apply representable_high_part in Hm. unfold high_part in Hm.
  rewrite Hs in Hm. destruct Hm as [Hm | [_ Hm]]; rewrite Hm.
  - left. apply Z.shiftl_0_l.
  - right. rewrite Z.shiftl_mul_pow2 by lia. lia.
Qed.

(** The value of a single-bit flag: a power of two, or the sign bit. *)
Lemma single_bit_cases (U : IntType) (flag : Enum) :
  single_bit U flag ->
  (exists k, 0 <= k /\ underlying flag = 2 ^ k) \/
  (is_signed U = true /\ underlying flag = - 2 ^ (width U - 1)).
Proof.
  intros [k [Hk Hf]]. pose proof (width_pos U) as Hw.
  destruct (is_signed U) eqn:Hs.
  - destruct (Z.eq_dec k (width U - 1)) as [->|Hne].
    + right. split; [reflexivity|]. rewrite Hf. apply wrap_sign_bit, Hs.
    + left. exists k. split; [lia|]. rewrite Hf. apply wrap_id.
      unfold representable, min_value, max_value. rewrite Hs.
      assert (0 < 2 ^ k) by (apply Z.pow_pos_nonneg; lia).
      assert (2 ^ k < 2 ^ (width U - 1)) by (apply Z.pow_lt_mono_r; lia).
      lia.
  - left. exists k. split; [lia|]. rewrite Hf. apply wrap_id.
    unfold representable, min_value, max_value. rewrite Hs.
    assert (0 < 2 ^ k) by (apply Z.pow_pos_nonneg; lia).
    assert (2 ^ k < 2 ^ width U) by (apply Z.pow_lt_mono_r; lia).
    lia.
Qed.

Lemma single_bit_nonzero (U : IntType) (flag : Enum) :
  single_bit U flag -> underlying flag <> 0.
Proof.
  intros Hb. pose proof (width_pos U) as Hw.
  destruct (single_bit_cases U flag Hb) as [[k [Hk ->]] | [_ ->]].
  - apply Z.pow_nonzero; lia.
  - assert (0 < 2 ^ (width U - 1)) by (apply Z.pow_pos_nonneg; lia). lia.
Qed.

Lemma single_bit_ok (U : IntType) (flag : Enum) :
  single_bit U flag -> enum_ok U flag.
Proof. intros [k [_ Hf]]. unfold enum_ok. rewrite Hf. apply wrap_representable. Qed.

(** A single-bit flag is either absent from the mask or wholly in it. *)
Lemma land_single_bit (U : IntType) (st : EnumFlags) (flag : Enum) :
  state_ok U st -> single_bit U flag ->
  Z.land (flags st) (underlying flag) = 0 \/
  Z.land (flags st) (underlying flag) = underlying flag.
Proof.
  intros Hst Hb.
  destruct (single_bit_cases U flag Hb) as [[k [Hk ->]] | [Hs ->]].
  - rewrite land_pow2 by assumption.
    destruct (Z.testbit (flags st) k); auto.
  - apply land_sign_bit; assumption.
Qed.

(** C1, as stated, fails: with only [one] set, [hasFlag(one | two)]
    answers [true] although bit [two] of the argument is not in the mask;
    and [hasFlag] of the zero value answers [false] although all of its
    (no) bits are in the mask. *)
Lemma hasFlag_all_bits_counterexample :
  let st := exec (set char_t TEST.one) (EnumFlags_default char_t) in
  let both := enum_or char_t TEST.one TEST.two in
  let none := enum_and char_t TEST.one TEST.two in
  state_ok char_t st /\ enum_ok char_t both /\ enum_ok char_t none /\
  (hasFlag st both = true /\ ~ spec_all_bits st both) /\
  (hasFlag st none = false /\ spec_all_bits st none).
Proof.
  vm_compute. repeat split; discriminate.
Qed.

(** C1, amended: [hasFlag(f)] answers [true] exactly when at least one bit
    of [f] is set in the mask, that is when mask AND [f] is not zero.  For
    a single-bit flag [f] this is the same as every bit of [f] being set
    in the mask, mask AND [f] = [f]. *)
Theorem hasFlag_iff_some_bit (U : IntType) (st : EnumFlags) (flag : Enum) :
  (hasFlag st flag = true <-> Z.land (flags st) (underlying flag) <> 0) /\
  (state_ok U st -> single_bit U flag ->
   (hasFlag st flag = true <-> spec_all_bits st flag)).
Proof.
  split; [apply hasFlag_true_iff|].
  intros Hst Hb. rewrite hasFlag_true_iff. unfold spec_all_bits.
  pose proof (single_bit_nonzero U flag Hb) as Hnz.
  destruct (land_single_bit U st flag Hst Hb) as [H0 | Hall]; split; intros H.
  - contradiction.
  - congruence.
  - exact Hall.
  - congruence.
Qed.

Lemma hasFlag_iff_some_bit_witness :
  state_ok char_t (mkEnumFlags 5) /\ single_bit char_t TEST.three /\
  (hasFlag (mkEnumFlags 5) TEST.three = true
   <-> spec_all_bits (mkEnumFlags 5) TEST.three).
Proof.
  assert (Hst : state_ok char_t (mkEnumFlags 5)) by (split; discriminate).
  assert (Hb : single_bit char_t TEST.three).
  { exists 2. split; [unfold width; simpl; lia | reflexivity]. }
  split; [exact Hst|]. split; [exact Hb|].
  exact (proj2 (hasFlag_iff_some_bit char_t (mkEnumFlags 5) TEST.three) Hst Hb).
Defined.

(** ** Further properties of the operations *)

Lemma nonzero_lor (a b : Z) :
  negb (Z.lor a b =? 0) = negb (a =? 0) || negb (b =? 0).
Proof.
  destruct (Z.eqb_spec a 0) as [->|Ha]; simpl.
  - reflexivity.
  - destruct (Z.eqb_spec (Z.lor a b) 0) as [H|H]; [|reflexivity].
    apply Z.lor_eq_0_iff in H. tauto.
Qed.

Lemma hasFlag_mask_lor (a b : Z) (flag : Enum) :
  hasFlag (mkEnumFlags (Z.lor a b)) flag =
  hasFlag (mkEnumFlags a) flag || hasFlag (mkEnumFlags b) flag.
Proof.
  unfold hasFlag. simpl. rewrite Z.land_lor_distr_l. apply nonzero_lor.
Qed.

Lemma exec_set_exact (U : IntType) (flag : Enum) (st : EnumFlags) :
  state_ok U st -> enum_ok U flag ->
  exec (set U flag) st = mkEnumFlags (Z.lor (flags st) (underlying flag)).
Proof.
  intros Hst Hf. rewrite exec_set. f_equal.
  apply wrap_id, representable_lor; assumption.
Qed.

Lemma exec_reset_exact (U : IntType) (flag : Enum) (st : EnumFlags) :
  state_ok U st -> enum_ok U flag ->
  exec (reset U flag) st =
  mkEnumFlags (Z.land (flags st) (Z.lnot (underlying flag))).
Proof.
  intros Hst Hf. rewrite exec_reset. f_equal.
  apply wrap_id, representable_land_lnot; assumption.
Qed.

Lemma land_lnot_disjoint (m f g : Z) :
  Z.land f g = 0 -> Z.land (Z.land m (Z.lnot f)) g = Z.land m g.
Proof.
  intros Hd. apply Z.bits_inj'. intros i Hi.
  assert (Hb : Z.testbit (Z.land f g) i = false) by (rewrite Hd; apply Z.bits_0).
  rewrite Z.land_spec in Hb.
  rewrite !Z.land_spec, Z.lnot_spec by assumption.
  destruct (Z.testbit m i), (Z.testbit f i), (Z.testbit g i);
    simpl in *; congruence.
Qed.

(** X1: conversions never lose a bit.  On a container and a flag of the
    enumeration, [set] stores exactly mask OR flag and [reset] exactly
    mask AND NOT flag: neither the integral promotion of a narrow
    underlying type nor the conversion back changes the value. *)
Theorem set_reset_store_exact (U : IntType) (st : EnumFlags) (flag : Enum) :
  state_ok U st -> enum_ok U flag ->
  flags (exec (set U flag) st) = Z.lor (flags st) (underlying flag) /\
  flags (exec (reset U flag) st) = Z.land (flags st) (Z.lnot (underlying flag)).
Proof.
  intros Hst Hf. split; [apply flags_set | apply flags_reset]; assumption.
Qed.

Lemma set_reset_store_exact_witness :
  state_ok uchar_t (mkEnumFlags 200) /\ enum_ok uchar_t (EnumVal 129) /\
  flags (exec (set uchar_t (EnumVal 129)) (mkEnumFlags 200)) = 201 /\
  flags (exec (reset uchar_t (EnumVal 129)) (mkEnumFlags 200)) = 72.
Proof.
  assert (Hst : state_ok uchar_t (mkEnumFlags 200)) by (split; discriminate).
  assert (Hf : enum_ok uchar_t (EnumVal 129)) by (split; discriminate).
  split; [exact Hst|]. split; [exact Hf|].
  exact (set_reset_store_exact uchar_t (mkEnumFlags 200) (EnumVal 129) Hst Hf).
Defined.

(** *** Invariants of the mask *)

Lemma construct_state_ok (U : IntType) (args : list Enum) :
  Forall (enum_ok U) args -> state_ok U (construct U args).
Proof.
  intros Hall. destruct args as [|f [|g rest]].
  - apply wrap_representable.
  - inversion Hall; assumption.
  - apply wrap_representable.
Qed.

Lemma construct_flags (U : IntType) (args : list Enum) :
  Forall (enum_ok U) args ->
  flags (construct U args) = fold_right Z.lor 0 (map underlying args).
Proof.
  intros Hall. destruct args as [|f rest].
  - apply wrap_0.
  - inversion Hall as [|? ? Hf Hrest]; subst.
    assert (Hfold : forall (l : list Enum) (e : Enum),
               or_fold (underlying e) (map underlying l)
               = fold_right Z.lor 0 (map underlying (e :: l))).
    { induction l as [|e' l IH]; intros e; simpl.
      - symmetry. apply Z.lor_0_r.
      - rewrite IH. reflexivity. }
    destruct rest as [|g rest].
    + simpl. symmetry. apply Z.lor_0_r.
    + change (construct U (f :: g :: rest))
        with (EnumFlags_variadic U f (g :: rest)).
      unfold EnumFlags_variadic, flags.
      rewrite wrap_id by (apply or_fold_representable; assumption).
      apply Hfold.
Qed.

Lemma spec_set_each_state_ok (U : IntType) (args : list Enum) :
  forall st : EnumFlags, state_ok U st -> state_ok U (spec_set_each U args st).
Proof.
  induction args as [|f args IH]; intros st Hst; simpl.
  - exact Hst.
  - apply IH, set_state_ok.
Qed.

Lemma spec_set_each_flags (U : IntType) (args : list Enum) :
  forall st : EnumFlags,
    state_ok U st -> Forall (enum_ok U) args ->
    flags (spec_set_each U args st)
    = Z.lor (flags st) (fold_right Z.lor 0 (map underlying args)).
Proof.
  induction args as [|f args IH]; intros st Hst Hall; simpl.
  - symmetry. apply Z.lor_0_r.
  - inversion Hall; subst.
    rewrite IH by (auto using set_state_ok).
    rewrite flags_set by assumption. symmetry. apply Z.lor_assoc.
Qed.

Lemma covered_lor (all a b : Z) :
  Z.land a all = a -> Z.land b all = b -> Z.land (Z.lor a b) all = Z.lor a b.
Proof. intros Ha Hb. rewrite Z.land_lor_distr_l, Ha, Hb. reflexivity. Qed.

Lemma covered_land (all a x : Z) :
  Z.land a all = a -> Z.land (Z.land a x) all = Z.land a x.
Proof.
  intros Ha.
  rewrite <- Z.land_assoc, (Z.land_comm x all), Z.land_assoc, Ha. reflexivity.
Qed.

Lemma covered_fold (all : Z) (args : list Enum) :
  Forall (within all) args ->
  Z.land (fold_right Z.lor 0 (map underlying args)) all
  = fold_right Z.lor 0 (map underlying args).
Proof.
  induction 1 as [|f args Hf Hall IH]; simpl.
  - reflexivity.
  - apply covered_lor; assumption.
Qed.

Lemma Forall_and_l {A : Type} (P Q : A -> Prop) (l : list A) :
  Forall (fun x => P x /\ Q x) l -> Forall P l.
Proof. intros H. eapply Forall_impl; [|exact H]. simpl. tauto. Qed.

Lemma Forall_and_r {A : Type} (P Q : A -> Prop) (l : list A) :
  Forall (fun x => P x /\ Q x) l -> Forall Q l.
Proof. intros H. eapply Forall_impl; [|exact H]. simpl. tauto. Qed.



(** X3: no operation brings in a foreign bit.  If every flag ever passed
    to a constructor, to [set] or to [reset] has its bits inside [all]
    (say, the OR of the declared enumerators), so has the mask. *)
Theorem built_mask_within (U : IntType) (all : Z) (st : EnumFlags) :
  built_from U (fun flag => enum_ok U flag /\ within all flag) st ->
  Z.land (flags st) all = flags st.
Proof.
  intros Hb.
  assert (Hok : forall s,
             built_from U (fun flag => enum_ok U flag /\ within all flag) s ->
             state_ok U s).
  { induction 1 as [args Hall | s flag _ _ _ | s args _ IH _ | s flag _ _ _].
    - apply construct_state_ok. apply (Forall_and_l _ _ _ Hall).
    - apply set_state_ok.
    - rewrite set_variadic_each. apply spec_set_each_state_ok, IH.
    - apply reset_state_ok. }
  induction Hb as [args Hall | s flag Hs IH [Hf Hw] | s args Hs IH Hall
                  | s flag Hs IH [Hf Hw]].
  - rewrite construct_flags by apply (Forall_and_l _ _ _ Hall).
    apply covered_fold. apply (Forall_and_r _ _ _ Hall).
  - rewrite flags_set by auto. apply covered_lor; assumption.
  - rewrite set_variadic_each.
    rewrite spec_set_each_flags
      by (auto; apply (Forall_and_l _ _ _ Hall)).
    apply covered_lor; [assumption|].
    apply covered_fold. apply (Forall_and_r _ _ _ Hall).
  - rewrite flags_reset by auto. apply covered_land. assumption.
Qed.

Lemma built_mask_within_witness :
  built_from char_t (fun flag => enum_ok char_t flag /\ within 7 flag)
    (exec (reset char_t TEST.one) (construct char_t [TEST.one; TEST.three])) /\
  Z.land
    (flags (exec (reset char_t TEST.one)
              (construct char_t [TEST.one; TEST.three]))) 7
  = flags (exec (reset char_t TEST.one)
             (construct char_t [TEST.one; TEST.three])).
Proof.
  assert (H1 : enum_ok char_t TEST.one /\ within 7 TEST.one)
    by (split; [split; discriminate | reflexivity]).
  assert (H3 : enum_ok char_t TEST.three /\ within 7 TEST.three)
    by (split; [split; discriminate | reflexivity]).
  assert (Hb : built_from char_t
                 (fun flag => enum_ok char_t flag /\ within 7 flag)
                 (exec (reset char_t TEST.one)
                    (construct char_t [TEST.one; TEST.three]))).
  { apply built_reset; [|exact H1].
    apply built_construct.
    exact (Forall_cons _ H1 (Forall_cons _ H3 (Forall_nil _))). }
  split; [exact Hb|]. exact (built_mask_within char_t 7 _ Hb).
Defined.

(** *** [set], [reset] and [hasFlag] together *)

(** X4: right after [set(f)], [hasFlag(f)] answers [true], unless [f] is
    the zero value, for which it answers [false]. *)
Theorem hasFlag_after_set_same (U : IntType) (st : EnumFlags) (flag : Enum) :
  state_ok U st -> enum_ok U flag ->
  hasFlag (exec (set U flag) st) flag = negb (underlying flag =? 0).
Proof.
  intros Hst Hf. unfold hasFlag.
  rewrite flags_set by assumption.
  rewrite Z.land_comm, land_lor_r. reflexivity.
Qed.

Lemma hasFlag_after_set_same_witness :
  state_ok char_t (mkEnumFlags 0) /\ enum_ok char_t TEST.two /\
  hasFlag (exec (set char_t TEST.two) (mkEnumFlags 0)) TEST.two = true.
Proof.
  assert (Hst : state_ok char_t (mkEnumFlags 0)) by (split; discriminate).
  assert (Hf : enum_ok char_t TEST.two) by (split; discriminate).
  split; [exact Hst|]. split; [exact Hf|].
  exact (hasFlag_after_set_same char_t (mkEnumFlags 0) TEST.two Hst Hf).
Defined.

(** X5: what [set(f)] changes for a query [g]: afterwards [hasFlag(g)]
    answers [true] exactly when it did before or when [g] shares a bit
    with [f].  So [set] never makes a query answer [false]. *)
Theorem hasFlag_after_set (U : IntType) (st : EnumFlags) (f g : Enum) :
  state_ok U st -> enum_ok U f ->
  hasFlag (exec (set U f) st) g
  = hasFlag st g || hasFlag (EnumFlags_single f) g.
Proof.
  intros Hst Hf. rewrite exec_set_exact by assumption.
  rewrite hasFlag_mask_lor. destruct st; reflexivity.
Qed.

Lemma hasFlag_after_set_witness :
  state_ok char_t (mkEnumFlags 4) /\ enum_ok char_t TEST.one /\
  hasFlag (exec (set char_t TEST.one) (mkEnumFlags 4)) TEST.three
  = hasFlag (mkEnumFlags 4) TEST.three
    || hasFlag (EnumFlags_single TEST.one) TEST.three.
Proof.
  assert (Hst : state_ok char_t (mkEnumFlags 4)) by (split; discriminate).
  assert (Hf : enum_ok char_t TEST.one) by (split; discriminate).
  split; [exact Hst|]. split; [exact Hf|].
  exact (hasFlag_after_set char_t (mkEnumFlags 4) TEST.one TEST.three Hst Hf).
Defined.

(** X6: [reset(f)] leaves every query that shares no bit with [f] as it
    was. *)
Theorem reset_keeps_other_flags (U : IntType) (st : EnumFlags) (f g : Enum) :
  state_ok U st -> enum_ok U f ->
  Z.land (underlying f) (underlying g) = 0 ->
  hasFlag (exec (reset U f) st) g = hasFlag st g.
Proof.
  intros Hst Hf Hd. unfold hasFlag.
  rewrite flags_reset by assumption.
  rewrite land_lnot_disjoint by assumption. reflexivity.
Qed.

Lemma reset_keeps_other_flags_witness :
  state_ok char_t (mkEnumFlags 7) /\ enum_ok char_t TEST.two /\
  Z.land (underlying TEST.two) (underlying TEST.three) = 0 /\
  hasFlag (exec (reset char_t TEST.two) (mkEnumFlags 7)) TEST.three
  = hasFlag (mkEnumFlags 7) TEST.three.
Proof.
  assert (Hst : state_ok char_t (mkEnumFlags 7)) by (split; discriminate).
  assert (Hf : enum_ok char_t TEST.two) by (split; discriminate).
  assert (Hd : Z.land (underlying TEST.two) (underlying TEST.three) = 0)
    by reflexivity.
  split; [exact Hst|]. split; [exact Hf|]. split; [exact Hd|].
  exact (reset_keeps_other_flags char_t (mkEnumFlags 7) TEST.two TEST.three
           Hst Hf Hd).
Defined.

(** Two single-bit flags of different value share no bit. *)
Lemma single_bit_disjoint (U : IntType) (f g : Enum) :
  single_bit U f -> single_bit U g -> underlying f <> underlying g ->
  Z.land (underlying f) (underlying g) = 0.
Proof.
  intros Hf Hg Hne.
  assert (Hpow_sign : forall e : Enum,
             single_bit U e -> is_signed U = true ->
             forall k, 0 <= k -> underlying e = 2 ^ k ->
             Z.land (2 ^ k) (- 2 ^ (width U - 1)) = 0).
  { intros e He Hs k Hk Hek.
    pose proof (single_bit_ok U e He) as Hok. unfold enum_ok in Hok.
    rewrite Hek in Hok.
    destruct (land_sign_bit U (2 ^ k) Hs Hok) as [H0 | Hneg]; [exact H0|].
    assert (0 <= Z.land (2 ^ k) (- 2 ^ (width U - 1))).
    { apply Z.land_nonneg. left. apply Z.pow_nonneg. lia. }
    pose proof (width_pos U).
    assert (0 < 2 ^ (width U - 1)) by (apply Z.pow_pos_nonneg; lia).
    lia. }
  destruct (single_bit_cases U f Hf) as [[j [Hj Hfj]] | [Hs Hfs]];
    destruct (single_bit_cases U g Hg) as [[k [Hk Hgk]] | [Hs' Hgs]].
  - rewrite Hfj, Hgk, land_pow2 by assumption.
    rewrite Z.pow2_bits_eqb by assumption.
    destruct (Z.eqb_spec j k) as [->|_]; [congruence | reflexivity].
  - rewrite Hfj, Hgs. apply (Hpow_sign f); assumption.
  - rewrite Hfs, Hgk, Z.land_comm. apply (Hpow_sign g); assumption.
  - congruence.
Qed.

(** X7: the reset scenario of the self test, for any two single-bit flags
    of different value: after [set(f); set(g); reset(f)], [hasFlag(f)]
    answers [false] and [hasFlag(g)] answers [true]. *)
Theorem set_set_reset_single_bits (U : IntType) (st : EnumFlags) (f g : Enum) :
  state_ok U st -> single_bit U f -> single_bit U g ->
  underlying f <> underlying g ->
  let st' := exec (reset U f) (exec (set U g) (exec (set U f) st)) in
  hasFlag st' f = false /\ hasFlag st' g = true.
Proof.
  intros Hst Hf Hg Hne st'.
  pose proof (single_bit_ok U f Hf) as Hfok.
  pose proof (single_bit_ok U g Hg) as Hgok.
  assert (H1 : state_ok U (exec (set U f) st)) by apply set_state_ok.
  assert (H2 : state_ok U (exec (set U g) (exec (set U f) st)))
    by apply set_state_ok.
  unfold st'. split.
  - apply hasFlag_reset_covered; try assumption. apply Z.land_diag.
  - unfold hasFlag. rewrite flags_reset by assumption.
    rewrite land_lnot_disjoint by (apply (single_bit_disjoint U); assumption).
    rewrite flags_set by assumption.
    rewrite Z.land_comm, land_lor_r.
    apply negb_true_iff, Z.eqb_neq. exact (single_bit_nonzero U g Hg).
Qed.

Lemma set_set_reset_single_bits_witness :
  state_ok char_t (mkEnumFlags 0) /\
  single_bit char_t TEST.one /\ single_bit char_t (EnumVal (-128)) /\
  underlying TEST.one <> underlying (EnumVal (-128)) /\
  let st' := exec (reset char_t TEST.one)
               (exec (set char_t (EnumVal (-128)))
                  (exec (set char_t TEST.one) (mkEnumFlags 0))) in
  hasFlag st' TEST.one = false /\ hasFlag st' (EnumVal (-128)) = true.
Proof.
  assert (Hst : state_ok char_t (mkEnumFlags 0)) by (split; discriminate).
  assert (Hf : single_bit char_t TEST.one).
  { exists 0. split; [unfold width; simpl; lia | reflexivity]. }
  assert (Hg : single_bit char_t (EnumVal (-128))).
  { exists 7. split; [unfold width; simpl; lia | reflexivity]. }
  assert (Hne : underlying TEST.one <> underlying (EnumVal (-128)))
    by discriminate.
  split; [exact Hst|]. split; [exact Hf|]. split; [exact Hg|].
  split; [exact Hne|].
  exact (set_set_reset_single_bits char_t (mkEnumFlags 0) TEST.one
           (EnumVal (-128)) Hst Hf Hg Hne).
Defined.

(** *** How [set] and [reset] compose *)

Lemma land_lnot_twice (m f : Z) :
  Z.land (Z.land m (Z.lnot f)) (Z.lnot f) = Z.land m (Z.lnot f).
Proof. rewrite <- Z.land_assoc, Z.land_diag. reflexivity. Qed.

Lemma lor_then_clear (m f : Z) :
  Z.land m f = 0 -> Z.land (Z.lor m f) (Z.lnot f) = m.
Proof.
  intros Hd. apply Z.bits_inj'. intros i Hi.
  assert (Hb : Z.testbit (Z.land m f) i = false) by (rewrite Hd; apply Z.bits_0).
  rewrite Z.land_spec in Hb.
  rewrite Z.land_spec, Z.lor_spec, Z.lnot_spec by assumption.
  destruct (Z.testbit m i), (Z.testbit f i); simpl in *; congruence.
Qed.

Lemma clear_then_lor (m f : Z) :
  Z.land m f = f -> Z.lor (Z.land m (Z.lnot f)) f = m.
Proof.
  intros Hc. apply Z.bits_inj'. intros i Hi.
  assert (Hb : Z.testbit (Z.land m f) i = Z.testbit f i) by (rewrite Hc; reflexivity).
  rewrite Z.land_spec in Hb.
  rewrite Z.lor_spec, Z.land_spec, Z.lnot_spec by assumption.
  destruct (Z.testbit m i), (Z.testbit f i); simpl in *; congruence.
Qed.

(** X8: [reset] is idempotent, and two [reset]s commute. *)
Theorem reset_idempotent_commutative (U : IntType) (st : EnumFlags) (f g : Enum) :
  state_ok U st -> enum_ok U f -> enum_ok U g ->
  exec (reset U f) (exec (reset U f) st) = exec (reset U f) st /\
  exec (reset U g) (exec (reset U f) st) = exec (reset U f) (exec (reset U g) st).
Proof.
  intros Hst Hf Hg.
  assert (Hsf : state_ok U (exec (reset U f) st)) by apply reset_state_ok.
  assert (Hsg : state_ok U (exec (reset U g) st)) by apply reset_state_ok.
  split.
  - rewrite (exec_reset_exact U f (exec (reset U f) st)) by assumption.
    rewrite flags_reset by assumption.
    rewrite land_lnot_twice. symmetry. apply exec_reset_exact; assumption.
  - rewrite (exec_reset_exact U g (exec (reset U f) st)) by assumption.
    rewrite (exec_reset_exact U f (exec (reset U g) st)) by assumption.
    rewrite !flags_reset by assumption. f_equal.
    rewrite <- !Z.land_assoc. f_equal. apply Z.land_comm.
Qed.

Lemma reset_idempotent_commutative_witness :
  state_ok char_t (mkEnumFlags 7) /\
  enum_ok char_t TEST.one /\ enum_ok char_t TEST.three /\
  exec (reset char_t TEST.one) (exec (reset char_t TEST.one) (mkEnumFlags 7))
  = exec (reset char_t TEST.one) (mkEnumFlags 7) /\
  exec (reset char_t TEST.three) (exec (reset char_t TEST.one) (mkEnumFlags 7))
  = exec (reset char_t TEST.one) (exec (reset char_t TEST.three) (mkEnumFlags 7)).
Proof.
  assert (Hst : state_ok char_t (mkEnumFlags 7)) by (split; discriminate).
  assert (Hf : enum_ok char_t TEST.one) by (split; discriminate).
  assert (Hg : enum_ok char_t TEST.three) by (split; discriminate).
  split; [exact Hst|]. split; [exact Hf|]. split; [exact Hg|].
  exact (reset_idempotent_commutative char_t (mkEnumFlags 7)
           TEST.one TEST.three Hst Hf Hg).
Defined.

(** X9: a combined value acts like its parts one after the other:
    [set(f | g)] leaves the mask of [set(f); set(g)], and [reset(f | g)]
    the mask of [reset(f); reset(g)]. *)
Theorem combined_value_is_sequence (U : IntType) (st : EnumFlags) (f g : Enum) :
  state_ok U st -> enum_ok U f -> enum_ok U g ->
  exec (set U (enum_or U f g)) st = exec (set U g) (exec (set U f) st) /\
  exec (reset U (enum_or U f g)) st = exec (reset U g) (exec (reset U f) st).
Proof.
  intros Hst Hf Hg.
  pose proof (enum_or_ok U f g) as Hfg.
  pose proof (enum_or_underlying U f g Hf Hg) as Hor.
  split.
  - rewrite (exec_set_exact U (enum_or U f g)) by assumption.
    rewrite (exec_set_exact U g) by (auto using set_state_ok).
    rewrite flags_set by assumption.
    rewrite Hor, Z.lor_assoc. reflexivity.
  - rewrite (exec_reset_exact U (enum_or U f g)) by assumption.
    rewrite (exec_reset_exact U g) by (auto using reset_state_ok).
    rewrite flags_reset by assumption.
    rewrite Hor, Z.lnot_lor, Z.land_assoc. reflexivity.
Qed.

Lemma combined_value_is_sequence_witness :
  state_ok char_t (mkEnumFlags 6) /\
  enum_ok char_t TEST.one /\ enum_ok char_t TEST.two /\
  exec (set char_t (enum_or char_t TEST.one TEST.two)) (mkEnumFlags 6)
  = exec (set char_t TEST.two) (exec (set char_t TEST.one) (mkEnumFlags 6)) /\
  exec (reset char_t (enum_or char_t TEST.one TEST.two)) (mkEnumFlags 6)
  = exec (reset char_t TEST.two) (exec (reset char_t TEST.one) (mkEnumFlags 6)).
Proof.
  assert (Hst : state_ok char_t (mkEnumFlags 6)) by (split; discriminate).
  assert (Hf : enum_ok char_t TEST.one) by (split; discriminate).
  assert (Hg : enum_ok char_t TEST.two) by (split; discriminate).
  split; [exact Hst|]. split; [exact Hf|]. split; [exact Hg|].
  exact (combined_value_is_sequence char_t (mkEnumFlags 6)
           TEST.one TEST.two Hst Hf Hg).
Defined.

(** X10: [reset] undoes [set] when the mask had none of the flag's bits:
    then [set(f); reset(f)] gives the container back unchanged. *)
Theorem set_then_reset_restores (U : IntType) (st : EnumFlags) (flag : Enum) :
  state_ok U st -> enum_ok U flag ->
  hasFlag st flag = false ->
  exec (reset U flag) (exec (set U flag) st) = st.
Proof.
  intros Hst Hf Hno. apply hasFlag_false_iff in Hno.
  rewrite exec_reset_exact by (auto using set_state_ok).
  rewrite flags_set by assumption.
  rewrite lor_then_clear by assumption. destruct st; reflexivity.
Qed.

Lemma set_then_reset_restores_witness :
  state_ok char_t (mkEnumFlags 5) /\ enum_ok char_t TEST.two /\
  hasFlag (mkEnumFlags 5) TEST.two = false /\
  exec (reset char_t TEST.two) (exec (set char_t TEST.two) (mkEnumFlags 5))
  = mkEnumFlags 5.
Proof.
  assert (Hst : state_ok char_t (mkEnumFlags 5)) by (split; discriminate).
  assert (Hf : enum_ok char_t TEST.two) by (split; discriminate).
  assert (Hno : hasFlag (mkEnumFlags 5) TEST.two = false) by reflexivity.
  split; [exact Hst|]. split; [exact Hf|]. split; [exact Hno|].
  exact (set_then_reset_restores char_t (mkEnumFlags 5) TEST.two Hst Hf Hno).
Defined.

(** X11: [set] undoes [reset] when the mask had all of the flag's bits:
    then [reset(f); set(f)] gives the container back unchanged. *)
Theorem reset_then_set_restores (U : IntType) (st : EnumFlags) (flag : Enum) :
  state_ok U st -> enum_ok U flag ->
  spec_all_bits st flag ->
  exec (set U flag) (exec (reset U flag) st) = st.
Proof.
  intros Hst Hf Hall. unfold spec_all_bits in Hall.
  rewrite exec_set_exact by (auto using reset_state_ok).
  rewrite flags_reset by assumption.
  rewrite clear_then_lor by assumption. destruct st; reflexivity.
Qed.

Lemma reset_then_set_restores_witness :
  state_ok char_t (mkEnumFlags 7) /\ enum_ok char_t TEST.two /\
  spec_all_bits (mkEnumFlags 7) TEST.two /\
  exec (set char_t TEST.two) (exec (reset char_t TEST.two) (mkEnumFlags 7))
  = mkEnumFlags 7.
Proof.
  assert (Hst : state_ok char_t (mkEnumFlags 7)) by (split; discriminate).
  assert (Hf : enum_ok char_t TEST.two) by (split; discriminate).
  assert (Hall : spec_all_bits (mkEnumFlags 7) TEST.two) by reflexivity.
  split; [exact Hst|]. split; [exact Hf|]. split; [exact Hall|].
  exact (reset_then_set_restores char_t (mkEnumFlags 7) TEST.two Hst Hf Hall).
Defined.

(** *** Queries *)

(** X12: on a combined value [hasFlag] asks for any of the parts, not for
    all of them: [hasFlag(f | g)] answers [true] exactly when
    [hasFlag(f)] or [hasFlag(g)] does; and [hasFlag(f & g)] answering
    [true] makes both [hasFlag(f)] and [hasFlag(g)] answer [true]. *)
Theorem hasFlag_combined (U : IntType) (st : EnumFlags) (f g : Enum) :
  enum_ok U f -> enum_ok U g ->
  hasFlag st (enum_or U f g) = hasFlag st f || hasFlag st g /\
  (hasFlag st (enum_and U f g) = true ->
   hasFlag st f = true /\ hasFlag st g = true).
Proof.
  intros Hf Hg. split.
  - unfold hasFlag. rewrite enum_or_underlying by assumption.
    rewrite Z.land_lor_distr_r. apply nonzero_lor.
  - rewrite !hasFlag_true_iff, enum_and_underlying by assumption.
    intros Hand. split; intros H0; apply Hand.
    + rewrite Z.land_assoc, H0. apply Z.land_0_l.
    + rewrite (Z.land_comm (underlying f)), Z.land_assoc, H0.
      apply Z.land_0_l.
Qed.

Lemma hasFlag_combined_witness :
  enum_ok char_t TEST.one /\ enum_ok char_t TEST.two /\
  hasFlag (mkEnumFlags 2) (enum_or char_t TEST.one TEST.two)
  = hasFlag (mkEnumFlags 2) TEST.one || hasFlag (mkEnumFlags 2) TEST.two.
Proof.
  assert (Hf : enum_ok char_t TEST.one) by (split; discriminate).
  assert (Hg : enum_ok char_t TEST.two) by (split; discriminate).
  split; [exact Hf|]. split; [exact Hg|].
  exact (proj1 (hasFlag_combined char_t (mkEnumFlags 2) TEST.one TEST.two
                  Hf Hg)).
Defined.

Lemma hasFlag_fold (args : list Enum) (g : Enum) :
  hasFlag (mkEnumFlags (fold_right Z.lor 0 (map underlying args))) g
  = existsb (fun f => hasFlag (EnumFlags_single f) g) args.
Proof.
  induction args as [|f args IH]; simpl.
  - reflexivity.
  - rewrite hasFlag_mask_lor, IH. reflexivity.
Qed.

(** X13: what a constructed container answers: [hasFlag(g)] on
    [EnumFlags(f1, ..., fN)] is [true] exactly when [g] shares a bit with
    one of the arguments, for every number of arguments, none included. *)
Theorem hasFlag_construct (U : IntType) (args : list Enum) (g : Enum) :
  Forall (enum_ok U) args ->
  hasFlag (construct U args) g
  = existsb (fun f => hasFlag (EnumFlags_single f) g) args.
Proof.
  intros Hall. rewrite <- hasFlag_fold.
  unfold hasFlag at 1. rewrite construct_flags by assumption. reflexivity.
Qed.

Lemma hasFlag_construct_witness :
  Forall (enum_ok int_t) [TEST.one; TEST.three] /\
  hasFlag (construct int_t [TEST.one; TEST.three]) TEST.three = true /\
  hasFlag (construct int_t [TEST.one; TEST.three]) TEST.two = false.
Proof.
  assert (Hall : Forall (enum_ok int_t) [TEST.one; TEST.three])
    by (repeat constructor; discriminate).
  split; [exact Hall|]. split.
  - exact (hasFlag_construct int_t _ TEST.three Hall).
  - exact (hasFlag_construct int_t _ TEST.two Hall).
Defined.

(** X14: what the variadic [set] changes for a query [g]: afterwards
    [hasFlag(g)] answers [true] exactly when it did before or when [g]
    shares a bit with one of the arguments. *)
Theorem hasFlag_after_set_variadic
  (U : IntType) (st : EnumFlags) (args : list Enum) (g : Enum) :
  state_ok U st -> Forall (enum_ok U) args ->
  hasFlag (exec (set_variadic U args) st) g
  = hasFlag st g || existsb (fun f => hasFlag (EnumFlags_single f) g) args.
Proof.
  intros Hst Hall. rewrite set_variadic_each, <- hasFlag_fold.
  unfold hasFlag at 1. rewrite spec_set_each_flags by assumption.
  change (hasFlag (mkEnumFlags
                     (Z.lor (flags st)
                        (fold_right Z.lor 0 (map underlying args)))) g
          = hasFlag st g
            || hasFlag (mkEnumFlags
                          (fold_right Z.lor 0 (map underlying args))) g).
  rewrite hasFlag_mask_lor. destruct st; reflexivity.
Qed.

Lemma hasFlag_after_set_variadic_witness :
  state_ok char_t (mkEnumFlags 1) /\
  Forall (enum_ok char_t) [TEST.two; TEST.three] /\
  hasFlag (exec (set_variadic char_t [TEST.two; TEST.three]) (mkEnumFlags 1))
          TEST.three = true.
Proof.
  assert (Hst : state_ok char_t (mkEnumFlags 1)) by (split; discriminate).
  assert (Hall : Forall (enum_ok char_t) [TEST.two; TEST.three])
    by (repeat constructor; discriminate).
  split; [exact Hst|]. split; [exact Hall|].
  exact (hasFlag_after_set_variadic char_t (mkEnumFlags 1) _ TEST.three
           Hst Hall).
Defined.

(** X15: the conversion to [bool] and [hasFlag] agree: a container
    converts to [true] exactly when [hasFlag] answers [true] for some
    value of the enumeration. *)
Theorem to_bool_iff_some_flag (U : IntType) (st : EnumFlags) :
  state_ok U st ->
  (to_bool st = true <->
   exists flag : Enum, enum_ok U flag /\ hasFlag st flag = true).
Proof.
  intros Hst. unfold to_bool. rewrite negb_true_iff, Z.eqb_neq. split.
  - intros Hnz. exists (EnumVal (flags st)). split; [exact Hst|].
    apply hasFlag_true_iff. simpl. rewrite Z.land_diag. exact Hnz.
  - intros [flag [_ Hh]] H0. apply hasFlag_true_iff in Hh.
    apply Hh. rewrite H0. apply Z.land_0_l.
Qed.

Lemma to_bool_iff_some_flag_witness :
  state_ok char_t (mkEnumFlags 4) /\
  (to_bool (mkEnumFlags 4) = true <->
   exists flag : Enum, enum_ok char_t flag /\ hasFlag (mkEnumFlags 4) flag = true).
Proof.
  assert (Hst : state_ok char_t (mkEnumFlags 4)) by (split; discriminate).
  split; [exact Hst|].
  exact (to_bool_iff_some_flag char_t (mkEnumFlags 4) Hst).
Defined.

(** X16: resetting a value that covers the whole mask empties the
    container: the result is the default-constructed one, and it converts
    to [false]. *)
Theorem reset_covering_empties (U : IntType) (st : EnumFlags) (x : Enum) :
  state_ok U st -> enum_ok U x ->
  Z.land (flags st) (underlying x) = flags st ->
  exec (reset U x) st = EnumFlags_default U /\
  to_bool (exec (reset U x) st) = false.
Proof.
  intros Hst Hx Hcov.
  assert (He : exec (reset U x) st = EnumFlags_default U).
  { rewrite exec_reset_exact by assumption.
    unfold EnumFlags_default. rewrite wrap_0. f_equal.
    rewrite <- Hcov, <- Z.land_assoc, Z.land_lnot_diag. apply Z.land_0_r. }
  split; [exact He|].
  rewrite He. unfold to_bool, EnumFlags_default. simpl.
  rewrite wrap_0. reflexivity.
Qed.

Lemma reset_covering_empties_witness :
  state_ok char_t (mkEnumFlags 5) /\
  enum_ok char_t
    (enum_or char_t (enum_or char_t TEST.one TEST.two) TEST.three) /\
  exec (reset char_t
          (enum_or char_t (enum_or char_t TEST.one TEST.two) TEST.three))
       (mkEnumFlags 5)
  = EnumFlags_default char_t.
Proof.
  assert (Hst : state_ok char_t (mkEnumFlags 5)) by (split; discriminate).
  assert (Hx : enum_ok char_t
                 (enum_or char_t (enum_or char_t TEST.one TEST.two) TEST.three))
    by (split; discriminate).
  split; [exact Hst|]. split; [exact Hx|].
  exact (proj1 (reset_covering_empties char_t (mkEnumFlags 5) _ Hst Hx
                  eq_refl)).
Defined.

(** *** Laws of [operator|] and [operator&] *)

Lemma enum_ext (a b : Enum) : underlying a = underlying b -> a = b.
Proof. destruct a, b. simpl. intros ->. reflexivity. Qed.

(** X17: [operator|] on values of one enumeration is commutative,
    associative and idempotent. *)
Theorem enum_or_laws (U : IntType) (f g h : Enum) :
  enum_ok U f -> enum_ok U g -> enum_ok U h ->
  enum_or U f g = enum_or U g f /\
  enum_or U (enum_or U f g) h = enum_or U f (enum_or U g h) /\
  enum_or U f f = f.
Proof.
  intros Hf Hg Hh. repeat apply conj; apply enum_ext.
  - rewrite !enum_or_underlying by assumption. apply Z.lor_comm.
  - rewrite !enum_or_underlying by (auto using enum_or_ok).
    symmetry. apply Z.lor_assoc.
  - rewrite enum_or_underlying by assumption. apply Z.lor_diag.
Qed.

Lemma enum_or_laws_witness :
  enum_ok char_t TEST.one /\ enum_ok char_t TEST.two /\
  enum_ok char_t TEST.three /\
  enum_or char_t (enum_or char_t TEST.one TEST.two) TEST.three
  = enum_or char_t TEST.one (enum_or char_t TEST.two TEST.three).
Proof.
  assert (H1 : enum_ok char_t TEST.one) by (split; discriminate).
  assert (H2 : enum_ok char_t TEST.two) by (split; discriminate).
  assert (H3 : enum_ok char_t TEST.three) by (split; discriminate).
  split; [exact H1|]. split; [exact H2|]. split; [exact H3|].
  exact (proj1 (proj2 (enum_or_laws char_t TEST.one TEST.two TEST.three
                         H1 H2 H3))).
Defined.

(** X18: [operator&] on values of one enumeration is commutative,
    associative and idempotent. *)
Theorem enum_and_laws (U : IntType) (f g h : Enum) :
  enum_ok U f -> enum_ok U g -> enum_ok U h ->
  enum_and U f g = enum_and U g f /\
  enum_and U (enum_and U f g) h = enum_and U f (enum_and U g h) /\
  enum_and U f f = f.
Proof.
  intros Hf Hg Hh. repeat apply conj; apply enum_ext.
  - rewrite !enum_and_underlying by assumption. apply Z.land_comm.
  - rewrite !enum_and_underlying by (auto using enum_and_ok).
    symmetry. apply Z.land_assoc.
  - rewrite enum_and_underlying by assumption. apply Z.land_diag.
Qed.

Lemma enum_and_laws_witness :
  enum_ok char_t (EnumVal 3) /\ enum_ok char_t (EnumVal 6) /\
  enum_ok char_t (EnumVal 5) /\
  enum_and char_t (enum_and char_t (EnumVal 3) (EnumVal 6)) (EnumVal 5)
  = enum_and char_t (EnumVal 3) (enum_and char_t (EnumVal 6) (EnumVal 5)).
Proof.
  assert (H1 : enum_ok char_t (EnumVal 3)) by (split; discriminate).
  assert (H2 : enum_ok char_t (EnumVal 6)) by (split; discriminate).
  assert (H3 : enum_ok char_t (EnumVal 5)) by (split; discriminate).
  split; [exact H1|]. split; [exact H2|]. split; [exact H3|].
  exact (proj1 (proj2 (enum_and_laws char_t (EnumVal 3) (EnumVal 6)
                         (EnumVal 5) H1 H2 H3))).
Defined.

(** X19: the two operators absorb each other and [operator&]
    distributes over [operator|]: [f & (f | g) = f], [f | (f & g) = f]
    and [f & (g | h) = (f & g) | (f & h)]. *)
Theorem enum_or_and_lattice (U : IntType) (f g h : Enum) :
  enum_ok U f -> enum_ok U g -> enum_ok U h ->
  enum_and U f (enum_or U f g) = f /\
  enum_or U f (enum_and U f g) = f /\
  enum_and U f (enum_or U g h)
  = enum_or U (enum_and U f g) (enum_and U f h).
Proof.
  intros Hf Hg Hh. repeat apply conj; apply enum_ext.
  - rewrite enum_and_underlying, enum_or_underlying
      by (auto using enum_or_ok).
    apply land_lor_l.
  - rewrite enum_or_underlying, enum_and_underlying
      by (auto using enum_and_ok).
    rewrite Z.lor_land_distr_r, Z.lor_diag. apply land_lor_l.
  - rewrite enum_and_underlying, !enum_or_underlying, !enum_and_underlying
      by (auto using enum_or_ok, enum_and_ok).
    apply Z.land_lor_distr_r.
Qed.

Lemma enum_or_and_lattice_witness :
  enum_ok char_t TEST.one /\ enum_ok char_t TEST.two /\
  enum_ok char_t TEST.three /\
  enum_and char_t TEST.one (enum_or char_t TEST.one TEST.two) = TEST.one.
Proof.
  assert (H1 : enum_ok char_t TEST.one) by (split; discriminate).
  assert (H2 : enum_ok char_t TEST.two) by (split; discriminate).
  assert (H3 : enum_ok char_t TEST.three) by (split; discriminate).
  split; [exact H1|]. split; [exact H2|]. split; [exact H3|].
  exact (proj1 (enum_or_and_lattice char_t TEST.one TEST.two TEST.three
                  H1 H2 H3)).
Defined.

(** *** The self test, for every underlying type *)

(** X20: the assertions of [debug_test()] hold for every underlying
    type, of any width and signedness, that can hold the three
    enumerators. *)
Theorem debug_test_passes (U : IntType) :
  enum_ok U TEST.three -> debug_test U = true.
Proof.
  intros H3.
  assert (Hmin : min_value U <= 0).
  { unfold min_value. pose proof (width_pos U).
    destruct (is_signed U); [|lia].
    assert (0 < 2 ^ (width U - 1)) by (apply Z.pow_pos_nonneg; lia). lia. }
  assert (H0 : representable U 0) by (rewrite <- (wrap_0 U); apply wrap_representable).
  assert (H1 : enum_ok U TEST.one).
  { destruct H3 as [_ Hmax]. split; simpl in *; lia. }
  assert (H2 : enum_ok U TEST.two).
  { destruct H3 as [_ Hmax]. split; simpl in *; lia. }
  assert (R1 : representable U 1) by exact H1.
  assert (R7 : representable U 7).
  { change 7 with (Z.lor (Z.lor 1 2) 4).
    apply representable_lor; [apply representable_lor|]; assumption. }
  assert (R5 : representable U 5).
  { change 5 with (Z.lor 1 4). apply representable_lor; assumption. }
  assert (E0 : EnumFlags_default U = mkEnumFlags 0).
  { unfold EnumFlags_default. rewrite wrap_0. reflexivity. }
  assert (E1 : exec (set U TEST.one) (mkEnumFlags 0) = mkEnumFlags 1).
  { rewrite exec_set_exact by assumption. reflexivity. }
  assert (E2 : exec (set_variadic U [TEST.two; TEST.three]) (mkEnumFlags 1)
               = mkEnumFlags 7).
  { rewrite set_variadic_each. simpl.
    rewrite (exec_set_exact U TEST.two) by assumption.
    rewrite exec_set_exact by (assumption || (apply representable_lor; assumption)).
    reflexivity. }
  assert (E3 : exec (reset U TEST.two) (mkEnumFlags 7) = mkEnumFlags 5).
  { rewrite exec_reset_exact by assumption. reflexivity. }
  assert (Eall : enum_or U (enum_or U TEST.one TEST.two) TEST.three = EnumVal 7).
  { apply enum_ext.
    rewrite !enum_or_underlying by (auto using enum_or_ok). reflexivity. }
  assert (E4 : exec (reset U (EnumVal 7)) (mkEnumFlags 5) = mkEnumFlags 0).
  { rewrite exec_reset_exact by assumption. reflexivity. }
  unfold debug_test. cbv zeta.
  rewrite E0, E1, E2, E3, Eall, E4. reflexivity.
Qed.

Lemma debug_test_passes_witness :
  enum_ok (mkIntType 16 false) TEST.three /\
  debug_test (mkIntType 16 false) = true.
Proof.
  assert (H3 : enum_ok (mkIntType 16 false) TEST.three)
    by (split; discriminate).
  split; [exact H3|]. exact (debug_test_passes (mkIntType 16 false) H3).
Defined.

(** *** Mixed sequences of [set] and [reset] *)

Lemma lor_clear_absorb (m f : Z) :
  Z.lor (Z.land m (Z.lnot f)) f = Z.lor m f.
Proof.
  apply Z.bits_inj'. intros i Hi.
  rewrite !Z.lor_spec, Z.land_spec, Z.lnot_spec by assumption.
  destruct (Z.testbit m i), (Z.testbit f i); reflexivity.
Qed.

Lemma clear_lor_absorb (m f : Z) :
  Z.land (Z.lor m f) (Z.lnot f) = Z.land m (Z.lnot f).
Proof.
  apply Z.bits_inj'. intros i Hi.
  rewrite !Z.land_spec, Z.lor_spec, Z.lnot_spec by assumption.
  destruct (Z.testbit m i), (Z.testbit f i); reflexivity.
Qed.

Lemma lor_clear_swap (m f g : Z) :
  Z.land f g = 0 ->
  Z.land (Z.lor m f) (Z.lnot g) = Z.lor (Z.land m (Z.lnot g)) f.
Proof.
  intros Hd. apply Z.bits_inj'. intros i Hi.
  assert (Hb : Z.testbit (Z.land f g) i = false) by (rewrite Hd; apply Z.bits_0).
  rewrite Z.land_spec in Hb.
  rewrite !Z.land_spec, !Z.lor_spec, Z.land_spec, Z.lnot_spec by assumption.
  destruct (Z.testbit m i), (Z.testbit f i), (Z.testbit g i);
    simpl in *; congruence.
Qed.

(** X21: on one flag the last operation wins: [reset(f); set(f)] leaves
    the mask of [set(f)] alone, and [set(f); reset(f)] the mask of
    [reset(f)] alone. *)
Theorem last_operation_wins (U : IntType) (st : EnumFlags) (flag : Enum) :
  state_ok U st -> enum_ok U flag ->
  exec (set U flag) (exec (reset U flag) st) = exec (set U flag) st /\
  exec (reset U flag) (exec (set U flag) st) = exec (reset U flag) st.
Proof.
  intros Hst Hf. split.
  - rewrite (exec_set_exact U flag (exec (reset U flag) st))
      by (auto using reset_state_ok).
    rewrite flags_reset, lor_clear_absorb by assumption.
    symmetry. apply exec_set_exact; assumption.
  - rewrite (exec_reset_exact U flag (exec (set U flag) st))
      by (auto using set_state_ok).
    rewrite flags_set, clear_lor_absorb by assumption.
    symmetry. apply exec_reset_exact; assumption.
Qed.

Lemma last_operation_wins_witness :
  state_ok char_t (mkEnumFlags 3) /\ enum_ok char_t TEST.two /\
  exec (set char_t TEST.two) (exec (reset char_t TEST.two) (mkEnumFlags 3))
  = exec (set char_t TEST.two) (mkEnumFlags 3) /\
  exec (reset char_t TEST.two) (exec (set char_t TEST.two) (mkEnumFlags 3))
  = exec (reset char_t TEST.two) (mkEnumFlags 3).
Proof.
  assert (Hst : state_ok char_t (mkEnumFlags 3)) by (split; discriminate).
  assert (Hf : enum_ok char_t TEST.two) by (split; discriminate).
  split; [exact Hst|]. split; [exact Hf|].
  exact (last_operation_wins char_t (mkEnumFlags 3) TEST.two Hst Hf).
Defined.

(** X22: [set(f)] and [reset(g)] commute when [f] and [g] share no
    bit. *)
Theorem set_reset_commute_disjoint (U : IntType) (st : EnumFlags) (f g : Enum) :
  state_ok U st -> enum_ok U f -> enum_ok U g ->
  Z.land (underlying f) (underlying g) = 0 ->
  exec (reset U g) (exec (set U f) st) = exec (set U f) (exec (reset U g) st).
Proof.
  intros Hst Hf Hg Hd.
  rewrite (exec_reset_exact U g (exec (set U f) st))
    by (auto using set_state_ok).
  rewrite (exec_set_exact U f (exec (reset U g) st))
    by (auto using reset_state_ok).
  rewrite flags_set, flags_reset by assumption.
  f_equal. apply lor_clear_swap, Hd.
Qed.

Lemma set_reset_commute_disjoint_witness :
  state_ok char_t (mkEnumFlags 6) /\
  enum_ok char_t TEST.one /\ enum_ok char_t TEST.two /\
  Z.land (underlying TEST.one) (underlying TEST.two) = 0 /\
  exec (reset char_t TEST.two) (exec (set char_t TEST.one) (mkEnumFlags 6))
  = exec (set char_t TEST.one) (exec (reset char_t TEST.two) (mkEnumFlags 6)).
Proof.
  assert (Hst : state_ok char_t (mkEnumFlags 6)) by (split; discriminate).
  assert (Hf : enum_ok char_t TEST.one) by (split; discriminate).
  assert (Hg : enum_ok char_t TEST.two) by (split; discriminate).
  assert (Hd : Z.land (underlying TEST.one) (underlying TEST.two) = 0)
    by reflexivity.
  split; [exact Hst|]. split; [exact Hf|]. split; [exact Hg|].
  split; [exact Hd|].
  exact (set_reset_commute_disjoint char_t (mkEnumFlags 6) TEST.one TEST.two
           Hst Hf Hg Hd).
Defined.

(** *** Single-bit flags: exact membership *)

Lemma single_bit_overlap_iff (U : IntType) (f g : Enum) :
  single_bit U f -> single_bit U g ->
  (hasFlag (EnumFlags_single f) g = true <-> underlying f = underlying g).
Proof.
  intros Hf Hg. rewrite hasFlag_true_iff. simpl. split.
  - intros Hnz. destruct (Z.eq_dec (underlying f) (underlying g)) as [He|Hne];
      [exact He|].
    exfalso. apply Hnz. apply (single_bit_disjoint U); assumption.
  - intros He. rewrite He, Z.land_diag. exact (single_bit_nonzero U g Hg).
Qed.

(** X23: for single-bit flags [hasFlag] is exact membership: on a
    container constructed from single-bit flags, [hasFlag(g)] for a
    single-bit [g] answers [true] exactly when [g] is one of the
    arguments. *)
Theorem hasFlag_construct_membership
  (U : IntType) (args : list Enum) (g : Enum) :
  Forall (single_bit U) args -> single_bit U g ->
  (hasFlag (construct U args) g = true <-> In g args).
Proof.
  intros Hall Hg.
  assert (Hok : Forall (enum_ok U) args).
  { eapply Forall_impl; [|exact Hall]. apply single_bit_ok. }
  assert (Hc : hasFlag (construct U args) g
               = existsb (fun f => hasFlag (EnumFlags_single f) g) args).
  { rewrite <- hasFlag_fold. unfold hasFlag at 1.
    rewrite construct_flags by assumption. reflexivity. }
  rewrite Hc, existsb_exists. rewrite Forall_forall in Hall. split.
  - intros [f [Hin Hov]].
    apply (single_bit_overlap_iff U f g (Hall f Hin) Hg) in Hov.
    apply enum_ext in Hov. subst f. exact Hin.
  - intros Hin. exists g. split; [exact Hin|].
    apply (single_bit_overlap_iff U g g Hg Hg). reflexivity.
Qed.

Lemma hasFlag_construct_membership_witness :
  Forall (single_bit char_t) [TEST.one; TEST.three] /\
  single_bit char_t TEST.two /\
  (hasFlag (construct char_t [TEST.one; TEST.three]) TEST.two = true
   <-> In TEST.two [TEST.one; TEST.three]).
Proof.
  assert (H1 : single_bit char_t TEST.one).
  { exists 0. split; [unfold width; simpl; lia | reflexivity]. }
  assert (H2 : single_bit char_t TEST.two).
  { exists 1. split; [unfold width; simpl; lia | reflexivity]. }
  assert (H3 : single_bit char_t TEST.three).
  { exists 2. split; [unfold width; simpl; lia | reflexivity]. }
  assert (Hall : Forall (single_bit char_t) [TEST.one; TEST.three])
    by exact (Forall_cons _ H1 (Forall_cons _ H3 (Forall_nil _))).
  split; [exact Hall|]. split; [exact H2|].
  exact (hasFlag_construct_membership char_t _ TEST.two Hall H2).
Defined.
